(** * Verification of the protocol identifier (libp2p-core upgrade.rs) and of
    the WebRTC stream-muxer adapter (transports/webrtc connection.rs). *)

From Stdlib Require Import List String Ascii Bool Arith Lia.
From Stdlib Require Import Init.Byte.
Import ListNotations.
Open Scope list_scope.

(* ------------------------------------------------------------------ *)
(** ** Protocol names: multistream_select::Protocol and core::upgrade::Protocol *)

Module Upgrade.

(** A Rust [String] is its sequence of UTF-8 bytes; each [ascii] of a Rocq
    [string] stands for one byte, so [String.length] is the length in bytes. *)

(** multistream_select::ProtocolError (only the variant used at construction). *)
Inductive ProtocolError := ProtocolError_InvalidProtocol.

(** Maximum length of a protocol name, in bytes. *)
Definition MAX_PROTOCOL_LEN : nat := 140.

(** Modelled from the spec: multistream_select::Protocol (crate
    misc/multistream-select, not part of the sources given).  Spec 4.A:
    "try_from_owned(s): fails with InvalidProtocol if '/' prefix missing or
    length exceeds 140 bytes". *)
Record MsProtocol := MkMsProtocol { ms_as_str : string }.

Definition starts_with_slash (s : string) : bool :=
  match s with
  | String c _ => Ascii.eqb c "/"%char
  | EmptyString => false
  end.

Definition ms_try_from_owned (protocol : string) : MsProtocol + ProtocolError :=
  if starts_with_slash protocol && Nat.leb (String.length protocol) MAX_PROTOCOL_LEN
  then inl (MkMsProtocol protocol)
  else inr ProtocolError_InvalidProtocol.

(** Modelled from the spec: multistream_select::Protocol::try_from(&[u8])
    (not part of the sources given).  Spec 9: "the new Protocol type requires
    UTF-8 and '/'-prefix", and 3: "at most 140 bytes long".  The bytes must
    be well-formed UTF-8 (as [std::str::from_utf8] checks), then the string
    is validated as by [try_from_owned]. *)
Definition is_cont (b : byte) : bool :=
  let n := Byte.to_nat b in (128 <=? n) && (n <=? 191).

Definition in_range (lo hi : nat) (b : byte) : bool :=
  let n := Byte.to_nat b in (lo <=? n) && (n <=? hi).

Fixpoint utf8_valid (bs : list byte) : bool :=
  match bs with
  | [] => true
  | b0 :: rest =>
      let n0 := Byte.to_nat b0 in
      if n0 <=? 127 then utf8_valid rest
      else if in_range 194 223 b0 then
        match rest with
        | b1 :: rest' => is_cont b1 && utf8_valid rest'
        | _ => false
        end
      else if in_range 224 239 b0 then
        match rest with
        | b1 :: b2 :: rest' =>
            (if n0 =? 224 then in_range 160 191 b1
             else if n0 =? 237 then in_range 128 159 b1
             else is_cont b1)
            && is_cont b2 && utf8_valid rest'
        | _ => false
        end
      else if in_range 240 244 b0 then
        match rest with
        | b1 :: b2 :: b3 :: rest' =>
            (if n0 =? 240 then in_range 144 191 b1
             else if n0 =? 244 then in_range 128 143 b1
             else is_cont b1)
            && is_cont b2 && is_cont b3 && utf8_valid rest'
        | _ => false
        end
      else false
  end.

Definition ms_try_from_bytes (name : list byte) : MsProtocol + ProtocolError :=
  if utf8_valid name
  then ms_try_from_owned (string_of_list_byte name)
  else inr ProtocolError_InvalidProtocol.

(** libp2p_core::upgrade::Protocol and InvalidProtocol. *)
Record Protocol := MkProtocol { inner : MsProtocol }.
Record InvalidProtocol := MkInvalidProtocol { invalid_source : ProtocolError }.

Definition as_str (p : Protocol) : string := ms_as_str (inner p).

Definition from_inner (p : MsProtocol) : Protocol := MkProtocol p.


(** [Protocol::try_from_owned]: [Ok(Protocol { inner: ...try_from_owned(protocol).map_err(InvalidProtocol)? })] *)
Definition try_from_owned (protocol : string) : Protocol + InvalidProtocol :=
  match ms_try_from_owned protocol with
  | inl p => inl (MkProtocol p)
  | inr e => inr (MkInvalidProtocol e)
  end.

(** The [log::warn!] diagnostics: the (lossily decoded) name of each
    ignored protocol. *)
Definition Diagnostic := list byte.

(** [filter_non_utf8_protocols]: the [Option<Protocol>] it returns, with the
    warning it logs. *)
Definition filter_non_utf8_protocols (name : list byte)
  : option Protocol * list Diagnostic :=
  match ms_try_from_bytes name with
  | inl p => (Some (from_inner p), [])
  | inr _ => (None, [name])
  end.

(** [to_protocols_iter]: [protocol_info().into_iter().filter_map(filter_non_utf8_protocols)],
    run to the end, with the diagnostics logged along the way. *)
Fixpoint to_protocols_iter (infos : list (list byte))
  : list Protocol * list Diagnostic :=
  match infos with
  | [] => ([], [])
  | p :: rest =>
      let '(o, log1) := filter_non_utf8_protocols p in
      let '(ps, log2) := to_protocols_iter rest in
      (match o with Some q => q :: ps | None => ps end, log1 ++ log2)
  end.

(** A name is well formed when [multistream_select::Protocol::try_from] accepts it. *)
Definition well_formed (name : list byte) : bool :=
  match ms_try_from_bytes name with inl _ => true | inr _ => false end.

End Upgrade.

(* ------------------------------------------------------------------ *)
(** ** Shared vocabulary: results, polls, errors *)

Module WebRTC.

Inductive result (A E : Type) := Ok (a : A) | Err (e : E).
Arguments Ok {A E} a.
Arguments Err {A E} e.

(** [std::task::Poll]. *)
Inductive Poll (A : Type) := Pending | Ready (a : A).
Arguments Pending {A}.
Arguments Ready {A} a.

(** Wakers are identified by the task they wake. *)
Definition Waker := nat.

(** [webrtc::Error]: opaque library errors. *)
Definition LibErr := nat.

(** Handles: an [RTCDataChannel] and a detached [DataChannel], by identifier. *)
Definition RTCDataChannel := nat.
Definition DetachedDataChannel := nat.

(** crate::error::Error (the variants the adapter produces). *)
Inductive Error :=
| WebRTC (e : LibErr)
| InternalError (msg : string).

(* ------------------------------------------------------------------ *)
(** ** futures::channel::mpsc, bounded channel

    The library's documented semantics: "The channel's capacity is equal to
    buffer + num-senders. In other words, each sender gets a guaranteed slot
    in the channel capacity".  [try_send] rejects a message with [Full] only
    when the sending handle is itself parked, and with [Disconnected] when
    the receiver has closed the channel; otherwise the message is queued and
    the sender parks itself once the queue holds more than [buffer]
    messages. *)
Module Mpsc.

Record Channel (T : Type) := MkChannel {
  buffer : nat;
  queue : list T;
  is_open : bool;
  recv_task : option Waker
}.
Arguments MkChannel {T}.
Arguments buffer {T}.
Arguments queue {T}.
Arguments is_open {T}.
Arguments recv_task {T}.

(** [mpsc::channel(buffer)]. *)
Definition channel {T} (buf : nat) : Channel T := MkChannel buf [] true None.

(** A [Sender] handle: its [maybe_parked] flag. *)
Record Sender := MkSender { maybe_parked : bool }.

(** [Sender::clone]: a new handle with its own, unparked, sender task. *)
Definition sender_clone (_ : Sender) : Sender := MkSender false.

Inductive TrySendError := Full | Disconnected.

(** [Sender::try_send].  A parked handle is refused (the adapter only ever
    sends through fresh clones, which are never parked). *)
Definition try_send {T} (tx : Sender) (msg : T) (ch : Channel T)
  : result unit TrySendError * Sender * Channel T :=
  if maybe_parked tx then (Err Full, tx, ch)
  else if negb (is_open ch) then (Err Disconnected, tx, ch)
  else
    let num_messages := S (List.length (queue ch)) in
    (* park_self = num_messages > buffer; queue_push_and_signal wakes the receiver *)
    (Ok tt, MkSender (buffer ch <? num_messages),
     MkChannel (buffer ch) (app (queue ch) [msg]) true None).

(** [Receiver::poll_next]: the next queued message; [None] once the channel
    is closed and empty; otherwise [Pending] with the waker registered. *)
Definition poll_next {T} (w : Waker) (ch : Channel T) : Poll (option T) * Channel T :=
  match queue ch with
  | m :: rest => (Ready (Some m), MkChannel (buffer ch) rest (is_open ch) (recv_task ch))
  | [] =>
      if is_open ch then (Pending, MkChannel (buffer ch) [] true (Some w))
      else (Ready None, ch)
  end.

(** [Receiver::close]: no new message is accepted; queued ones stay. *)
Definition close {T} (ch : Channel T) : Channel T :=
  MkChannel (buffer ch) (queue ch) false (recv_task ch).

End Mpsc.

(* ------------------------------------------------------------------ *)
(** ** Boxed futures stored in an [Option] slot

    A stored [BoxFuture] built from an [async] block: its identity and
    whether it has already returned [Ready].  What one poll of the body
    yields is supplied by the environment (scheduling and library
    behaviour).  Polling an [async] block again after it returned [Ready]
    panics ("`async fn` resumed after completion"); a panic is [None]. *)
Record Fut := MkFut { fut_id : nat; fut_done : bool }.

Definition poll_fut {A} (f : Fut) (r : Poll A) : option (Poll A * Fut) :=
  if fut_done f then None
  else match r with
       | Pending => Some (Pending, f)
       | Ready a => Some (Ready a, MkFut (fut_id f) true)
       end.

(** [Option::get_or_insert]: the stored value, or the given one. *)
Definition get_or_insert {A} (slot : option A) (v : A) : A :=
  match slot with Some x => x | None => v end.

(* ------------------------------------------------------------------ *)
(** ** The outbound-open future and the close future *)

(** The observable steps of the outbound-open [async] block, in order. *)
Inductive Event :=
| AcquirePeerConnLock                                   (* peer_conn.lock().await *)
| CreateDataChannel (label : string) (options : option unit)
| ReleasePeerConnLock                                   (* the guard is dropped *)
| RegisterOpenHandler (dc : RTCDataChannel)
| AwaitOneshot.                                         (* rx.await *)

(** A writer and error monad for the [async] block: the trace of steps and
    the [Result] it returns; [?] short-circuits. *)
Definition M (A : Type) : Type := (list Event * result A Error)%type.

Definition ret {A} (a : A) : M A := ([], Ok a).
Definition raise {A} (e : Error) : M A := ([], Err e).
Definition tell (ev : Event) : M unit := ([ev], Ok tt).
Definition bind {A B} (m : M A) (k : A -> M B) : M B :=
  match m with
  | (t, Ok a) => let '(t', r) := k a in (t ++ t', r)
  | (t, Err e) => (t, Err e)
  end.

Notation "x <- m ;; k" := (bind m (fun x => k))
  (at level 61, m at next level, right associativity).
Notation "m ;; k" := (bind m (fun _ => k))
  (at level 61, right associativity).

(** What the peer-connection library does during one outbound open:
    the outcome of [create_data_channel] and of [detach] in the open
    handler. *)
Record OutboundLib := MkOutboundLib {
  create_result : result RTCDataChannel LibErr;
  detach_result : result DetachedDataChannel LibErr
}.

(** [futures::channel::oneshot::Canceled] and its [to_string()]. *)
Inductive Canceled := MkCanceled.
Definition canceled_to_string (_ : Canceled) : string := "oneshot canceled"%string.

(** [register_data_channel_open_handler] followed by [rx.await]: what the
    one-shot receiver yields.  On a successful detach the handler sends the
    detached channel (the receiver is alive: the future awaits it); on a
    failed detach it logs the error and drops the sender. *)
Definition oneshot_outcome (detach : result DetachedDataChannel LibErr)
  : result DetachedDataChannel Canceled :=
  match detach with
  | Ok detached => Ok detached
  | Err _ => Err MkCanceled
  end.

(** The [async move] block stored in [outbound_fut] by [poll_outbound]. *)
Definition outbound_body (lib : OutboundLib) : M DetachedDataChannel :=
  tell AcquirePeerConnLock ;;
  tell (CreateDataChannel "data"%string None) ;;
  match create_result lib with
  | Err e =>
      (* [.map_err(Error::WebRTC).await?] returns; the lock guard drops *)
      tell ReleasePeerConnLock ;; raise (WebRTC e)
  | Ok data_channel =>
      tell ReleasePeerConnLock ;;                      (* drop(peer_conn) *)
      tell (RegisterOpenHandler data_channel) ;;
      tell AwaitOneshot ;;
      match oneshot_outcome (detach_result lib) with
      | Ok detached => ret detached
      | Err e => raise (InternalError (canceled_to_string e))
      end
  end.

(** The [async move] block stored in [close_fut] by [poll_close]:
    [peer_conn.lock().await; peer_conn.close().await.map_err(Error::WebRTC)]. *)
Definition close_body (r : result unit LibErr) : result unit Error :=
  match r with
  | Ok u => Ok u
  | Err e => Err (WebRTC e)
  end.

(* ------------------------------------------------------------------ *)
(** ** Substreams: [PollDataChannel] *)

(** Default read-buffer capacity of a [PollDataChannel] ("default: 8192"). *)
Definition DEFAULT_READ_BUF_CAP : nat := 8192.

Record PollDataChannel := MkPollDataChannel {
  pdc_channel : DetachedDataChannel;
  pdc_read_buf_cap : nat
}.

Definition PollDataChannel_new (detached : DetachedDataChannel) : PollDataChannel :=
  MkPollDataChannel detached DEFAULT_READ_BUF_CAP.

Definition set_read_buf_capacity (cap : nat) (ch : PollDataChannel) : PollDataChannel :=
  MkPollDataChannel (pdc_channel ch) cap.

(** [let mut ch = PollDataChannel::new(detached); if let Some(cap) = inner.read_buf_cap { ch.set_read_buf_capacity(cap) }] *)
Definition new_substream (read_buf_cap : option nat) (detached : DetachedDataChannel)
  : PollDataChannel :=
  let ch := PollDataChannel_new detached in
  match read_buf_cap with
  | Some cap => set_read_buf_capacity cap ch
  | None => ch
  end.

(* ------------------------------------------------------------------ *)
(** ** The connection *)

Definition MAX_DATA_CHANNELS_IN_FLIGHT : nat := 10.

(** [ConnectionInner], plus the count of boxed futures allocated so far
    (which gives each one its identity). *)
Record Connection := MkConnection {
  incoming_data_channels_rx : Mpsc.Channel DetachedDataChannel;
  read_buf_cap : option nat;
  outbound_fut : option Fut;
  close_fut : option Fut;
  next_fut_id : nat
}.

Definition set_rx (rx : Mpsc.Channel DetachedDataChannel) (c : Connection) : Connection :=
  MkConnection rx (read_buf_cap c) (outbound_fut c) (close_fut c) (next_fut_id c).
Definition set_read_buf_cap (cap : option nat) (c : Connection) : Connection :=
  MkConnection (incoming_data_channels_rx c) cap (outbound_fut c) (close_fut c) (next_fut_id c).
Definition set_outbound_fut (f : option Fut) (c : Connection) : Connection :=
  MkConnection (incoming_data_channels_rx c) (read_buf_cap c) f (close_fut c) (next_fut_id c).
Definition set_close_fut (f : option Fut) (c : Connection) : Connection :=
  MkConnection (incoming_data_channels_rx c) (read_buf_cap c) (outbound_fut c) f (next_fut_id c).

(** [Box::pin(async move { .. })]: a new, not yet polled, future.  The
    argument of [get_or_insert] is built on every call, also when a future
    is already stored (it is then dropped without being polled). *)
Definition alloc_fut (c : Connection) : Fut * Connection :=
  (MkFut (next_fut_id c) false,
   MkConnection (incoming_data_channels_rx c) (read_buf_cap c) (outbound_fut c)
     (close_fut c) (S (next_fut_id c))).

(** [Connection::new]: the channel of capacity [MAX_DATA_CHANNELS_IN_FLIGHT],
    whose sender goes to the incoming-data-channel handler. *)
Definition new : Connection :=
  MkConnection (Mpsc.channel MAX_DATA_CHANNELS_IN_FLIGHT) None None None 0.

(** [set_data_channels_read_buf_capacity]. *)
Definition set_data_channels_read_buf_capacity (cap : nat) (c : Connection) : Connection :=
  set_read_buf_cap (Some cap) c.

Definition rx_closed_msg : string :=
  "incoming_data_channels_rx is closed (no messages left)"%string.

(** [StreamMuxer::poll_inbound]. *)
Definition poll_inbound (cx : Waker) (c : Connection)
  : Poll (result PollDataChannel Error) * Connection :=
  let '(r, rx) := Mpsc.poll_next cx (incoming_data_channels_rx c) in
  let c := set_rx rx c in
  match r with
  | Pending => (Pending, c)                                   (* ready! *)
  | Ready (Some detached) => (Ready (Ok (new_substream (read_buf_cap c) detached)), c)
  | Ready None => (Ready (Err (InternalError rx_closed_msg)), c)
  end.

(** [StreamMuxer::poll_outbound].  [lib] is what this poll of the stored
    future observes: [Pending], or completion with the library's outcomes. *)
Definition poll_outbound (cx : Waker) (lib : Poll OutboundLib) (c : Connection)
  : option (Poll (result PollDataChannel Error) * Connection) :=
  let '(boxed, c) := alloc_fut c in
  let fut := get_or_insert (outbound_fut c) boxed in
  let body := match lib with
              | Pending => Pending
              | Ready l => Ready (snd (outbound_body l))
              end in
  match poll_fut fut body with
  | None => None
  | Some (r, fut) =>
      let c := set_outbound_fut (Some fut) c in
      match r with
      | Pending => Some (Pending, c)                          (* ready! *)
      | Ready (Ok detached) => Some (Ready (Ok (new_substream (read_buf_cap c) detached)), c)
      | Ready (Err e) => Some (Ready (Err e), c)
      end
  end.

(** [StreamMuxer::poll_close].  [lib] is what this poll of the stored
    future observes: [Pending], or the result of [RTCPeerConnection::close]. *)
Definition poll_close (cx : Waker) (lib : Poll (result unit LibErr)) (c : Connection)
  : option (Poll (result unit Error) * Connection) :=
  let '(boxed, c) := alloc_fut c in
  let fut := get_or_insert (close_fut c) boxed in
  let body := match lib with
              | Pending => Pending
              | Ready r => Ready (close_body r)
              end in
  match poll_fut fut body with
  | None => None
  | Some (r, fut) =>
      let c := set_close_fut (Some fut) c in
      match r with
      | Pending => Some (Pending, c)                          (* ready! *)
      | Ready (Ok u) =>
          Some (Ready (Ok u), set_rx (Mpsc.close (incoming_data_channels_rx c)) c)
      | Ready (Err e) => Some (Ready (Err e), c)
      end
  end.

(** What the incoming-data-channel handler does with one opened channel. *)
Inductive CallbackOutcome :=
| Queued                                  (* try_send succeeded *)
| ClosedByAdapter (e : Mpsc.TrySendError) (* try_send failed: detached.close() *)
| DetachFailed (e : LibErr).              (* detach failed: logged *)

(** The handler installed by [register_incoming_data_channels_handler],
    run when an incoming data channel opens: [tx.clone()], [detach()], then
    [try_send]. *)
Definition incoming_data_channel (tx : Mpsc.Sender)
    (detach : result DetachedDataChannel LibErr) (c : Connection)
  : CallbackOutcome * Connection :=
  let tx := Mpsc.sender_clone tx in
  match detach with
  | Err e => (DetachFailed e, c)
  | Ok detached =>
      match Mpsc.try_send tx detached (incoming_data_channels_rx c) with
      | (Ok _, _, rx) => (Queued, set_rx rx c)
      | (Err e, _, _) => (ClosedByAdapter e, c)
      end
  end.

(** The sender handed to the handler by [Connection::new]. *)
Definition handler_tx : Mpsc.Sender := Mpsc.MkSender false.

(* ------------------------------------------------------------------ *)
(** ** Runs: any interleaving of the adapter's operations *)

Inductive Op :=
| OpPollInbound (cx : Waker)
| OpPollOutbound (cx : Waker) (lib : Poll OutboundLib)
| OpPollClose (cx : Waker) (lib : Poll (result unit LibErr))
| OpIncoming (detach : result DetachedDataChannel LibErr)
| OpSetReadBufCap (cap : nat).

Inductive Obs :=
| ObsInbound (r : Poll (result PollDataChannel Error))
| ObsOutbound (r : Poll (result PollDataChannel Error))
| ObsClose (r : Poll (result unit Error))
| ObsIncoming (o : CallbackOutcome)
| ObsSetReadBufCap.

(** One operation; [None] when it panics. *)
Definition step (op : Op) (c : Connection) : option (Obs * Connection) :=
  match op with
  | OpPollInbound cx => let '(r, c) := poll_inbound cx c in Some (ObsInbound r, c)
  | OpPollOutbound cx lib =>
      match poll_outbound cx lib c with
      | Some (r, c) => Some (ObsOutbound r, c)
      | None => None
      end
  | OpPollClose cx lib =>
      match poll_close cx lib c with
      | Some (r, c) => Some (ObsClose r, c)
      | None => None
      end
  | OpIncoming d => let '(o, c) := incoming_data_channel handler_tx d c in Some (ObsIncoming o, c)
  | OpSetReadBufCap cap => Some (ObsSetReadBufCap, set_data_channels_read_buf_capacity cap c)
  end.

(** The observations of a run; a panic unwinds and ends it. *)
Fixpoint run (ops : list Op) (c : Connection) : list Obs :=
  match ops with
  | [] => []
  | op :: rest =>
      match step op c with
      | Some (o, c') => o :: run rest c'
      | None => []
      end
  end.

(** The results of the [poll_inbound] calls of a run, in order. *)
Fixpoint inbound_results (obs : list Obs) : list (Poll (result PollDataChannel Error)) :=
  match obs with
  | [] => []
  | ObsInbound r :: rest => r :: inbound_results rest
  | _ :: rest => inbound_results rest
  end.

(** The receiver of the inbound queue. *)
Definition rx (c : Connection) := incoming_data_channels_rx c.

(** The detached channels handed out by the [poll_inbound] calls of a run. *)
Fixpoint delivered (obs : list Obs) : list DetachedDataChannel :=
  match obs with
  | [] => []
  | ObsInbound (Ready (Ok ch)) :: rest => pdc_channel ch :: delivered rest
  | _ :: rest => delivered rest
  end.

(** The channels the incoming-channel handler queued during a run. *)
Fixpoint enqueued (ops : list Op) (obs : list Obs) : list DetachedDataChannel :=
  match ops, obs with
  | OpIncoming (Ok d) :: ops', ObsIncoming Queued :: obs' => d :: enqueued ops' obs'
  | _ :: ops', _ :: obs' => enqueued ops' obs'
  | _, _ => []
  end.

End WebRTC.

(* ================================================================== *)
(** * Properties of the protocol identifier *)

Module UpgradeFacts.
Import Upgrade.

Lemma ms_try_from_owned_ok_iff (s : string) :
  (exists p, ms_try_from_owned s = inl p) <->
  ((exists rest, s = String "/"%char rest) /\ String.length s <= MAX_PROTOCOL_LEN).
Proof.
  unfold ms_try_from_owned.
  destruct (starts_with_slash s && Nat.leb (String.length s) MAX_PROTOCOL_LEN) eqn:E.
  - apply andb_true_iff in E as [E1 E2]. apply Nat.leb_le in E2.
    split; [intros _ | eauto].
    split; [| exact E2].
    destruct s as [|c r]; [discriminate |].
    unfold starts_with_slash in E1. apply Ascii.eqb_eq in E1. subst. eauto.
  - split; [intros [p Hp]; discriminate |].
    intros [[r ->] Hl].
    unfold starts_with_slash in E.
    rewrite Ascii.eqb_refl, (proj2 (Nat.leb_le _ _) Hl) in E. discriminate.
Qed.

(** C1: [Protocol::try_from_owned(s)] is [Ok] exactly when [s] starts with
    '/' and is at most 140 bytes long; a name of 140 bytes is accepted, one
    of 141 bytes is rejected with [InvalidProtocol]. *)
Theorem try_from_owned_ok_iff :
  (forall s : string,
      (exists p, try_from_owned s = inl p) <->
      ((exists rest, s = String "/"%char rest) /\ String.length s <= 140)) /\
  (exists p, try_from_owned (String "/" (string_of_list_ascii (repeat "a"%char 139))) = inl p) /\
  try_from_owned (String "/" (string_of_list_ascii (repeat "a"%char 140)))
    = inr (MkInvalidProtocol ProtocolError_InvalidProtocol).
Proof.
  split; [| split].
  - intros s. rewrite <- ms_try_from_owned_ok_iff. unfold try_from_owned.
    destruct (ms_try_from_owned s) as [p|e].
    + split; intros _; eauto.
    + split; intros [p Hp]; discriminate.
  - eexists; vm_compute; reflexivity.
  - vm_compute; reflexivity.
Qed.

Lemma filter_non_utf8_protocols_spec (name : list byte) :
  filter_non_utf8_protocols name =
  if well_formed name
  then (Some (MkProtocol (MkMsProtocol (string_of_list_byte name))), [])
  else (None, [name]).
Proof.
  unfold filter_non_utf8_protocols, well_formed, from_inner.
  destruct (ms_try_from_bytes name) as [p|e] eqn:E; [|reflexivity].
  unfold ms_try_from_bytes, ms_try_from_owned in E.
  destruct (utf8_valid name); [|discriminate].
  destruct (_ && _); [|discriminate].
  inversion E; reflexivity.
Qed.

(** C6: the protocols derived by [to_protocols_iter] are exactly the
    well-formed names of the enumeration, in its order; every malformed name
    is dropped and reported by one diagnostic, in order.  For the
    enumeration ["/ok", "bad", "/also"] the list is ["/ok", "/also"] and
    "bad" is reported. *)
Theorem to_protocols_iter_filters :
  (forall infos : list (list byte),
      map as_str (fst (to_protocols_iter infos))
        = map string_of_list_byte (filter well_formed infos) /\
      snd (to_protocols_iter infos) = filter (fun n => negb (well_formed n)) infos) /\
  (map as_str (fst (to_protocols_iter
      (map list_byte_of_string ["/ok"; "bad"; "/also"]%string)))
     = ["/ok"; "/also"]%string /\
   snd (to_protocols_iter (map list_byte_of_string ["/ok"; "bad"; "/also"]%string))
     = [list_byte_of_string "bad"]).
Proof.
  split.
  - induction infos as [|n rest [IH1 IH2]]; [split; reflexivity|].
    simpl. rewrite filter_non_utf8_protocols_spec.
    destruct (to_protocols_iter rest) as [ps log] eqn:E; simpl in *.
    destruct (well_formed n); simpl; rewrite ?IH1, ?IH2; split; reflexivity.
  - split; vm_compute; reflexivity.
Qed.

End UpgradeFacts.

(* ================================================================== *)
(** * Properties of the WebRTC muxer adapter *)

Module WebRTCFacts.
Import WebRTC.

(** C5: every [poll_inbound] call has exactly one of three outcomes: a
    queued channel is drained and returned as a substream; the queue is
    closed and empty and [InternalError] is returned; or the queue is open
    and empty and the call is [Pending] with the caller's waker
    registered. *)
Theorem poll_inbound_trichotomy (cx : Waker) (c : Connection) :
  let '(r, c') := poll_inbound cx c in
  (exists d rest,
      Mpsc.queue (rx c) = d :: rest /\
      r = Ready (Ok (new_substream (read_buf_cap c) d)) /\
      Mpsc.queue (rx c') = rest) \/
  (Mpsc.queue (rx c) = [] /\ Mpsc.is_open (rx c) = false /\
   r = Ready (Err (InternalError rx_closed_msg)) /\ c' = c) \/
  (Mpsc.queue (rx c) = [] /\ Mpsc.is_open (rx c) = true /\
   r = Pending /\ Mpsc.recv_task (rx c') = Some cx).
Proof.
  destruct c as [[buf q op task] cap of cf n]; unfold poll_inbound, rx; simpl.
  destruct q as [|d rest]; simpl.
  - destruct op; simpl.
    + right; right; repeat split; reflexivity.
    + right; left; repeat split; reflexivity.
  - left; exists d, rest; repeat split; reflexivity.
Qed.

(** C8: a stored, not yet completed outbound-open (resp. close) future is
    the one polled again: no second one is stored, and while it is pending
    every caller observes [Pending].  (The slot is an [option], so at most
    one of each is stored at any time.) *)
Theorem single_pending_future :
  (forall cx lib c f,
      outbound_fut c = Some f -> fut_done f = false ->
      exists r c',
        poll_outbound cx lib c = Some (r, c') /\
        (exists f', outbound_fut c' = Some f' /\ fut_id f' = fut_id f) /\
        close_fut c' = close_fut c /\
        (lib = Pending -> r = Pending)) /\
  (forall cx lib c f,
      close_fut c = Some f -> fut_done f = false ->
      exists r c',
        poll_close cx lib c = Some (r, c') /\
        (exists f', close_fut c' = Some f' /\ fut_id f' = fut_id f) /\
        outbound_fut c' = outbound_fut c /\
        (lib = Pending -> r = Pending)).
Proof.
  split.
  - intros cx lib c f Hs Hd.
    destruct c as [rxc cap of cf n]; simpl in Hs; subst of.
    destruct f as [id done]; simpl in Hd; subst done.
    unfold poll_outbound, alloc_fut, get_or_insert, poll_fut; simpl.
    destruct lib as [|l]; simpl.
    + do 2 eexists; split; [reflexivity|]; simpl.
      split; [eexists; split; reflexivity|]. split; [reflexivity|]. intros _; reflexivity.
    + destruct (snd (outbound_body l)) as [d|e]; simpl;
        (do 2 eexists; split; [reflexivity|]; simpl;
         split; [eexists; split; reflexivity|]; split; [reflexivity|];
         intros H; discriminate).
  - intros cx lib c f Hs Hd.
    destruct c as [rxc cap of cf n]; simpl in Hs; subst cf.
    destruct f as [id done]; simpl in Hd; subst done.
    unfold poll_close, alloc_fut, get_or_insert, poll_fut; simpl.
    destruct lib as [|l]; simpl.
    + do 2 eexists; split; [reflexivity|]; simpl.
      split; [eexists; split; reflexivity|]. split; [reflexivity|]. intros _; reflexivity.
    + destruct (close_body l) as [u|e]; simpl;
        (do 2 eexists; split; [reflexivity|]; simpl;
         split; [eexists; split; reflexivity|]; split; [reflexivity|];
         intros H; discriminate).
Qed.

Lemma single_pending_future_witness :
  exists r c',
    poll_outbound 1 Pending (set_outbound_fut (Some (MkFut 0 false)) new) = Some (r, c') /\
    (exists f', outbound_fut c' = Some f' /\ fut_id f' = 0) /\
    close_fut c' = close_fut (set_outbound_fut (Some (MkFut 0 false)) new) /\
    (Pending = @Pending OutboundLib -> r = Pending).
Proof.
  apply (proj1 single_pending_future 1 Pending
           (set_outbound_fut (Some (MkFut 0 false)) new) (MkFut 0 false));
    reflexivity.
Defined.

(** C2 (code): once the outbound-open future has completed, [poll_outbound]
    leaves it in [outbound_fut]; the next [poll_outbound] polls the
    completed future again (which panics) instead of starting a new open. *)
Theorem poll_outbound_keeps_completed_future :
  forall cx lib c r c',
    poll_outbound cx (Ready lib) c = Some (Ready r, c') ->
    (exists f, outbound_fut c' = Some f /\ fut_done f = true) /\
    forall cx' lib', poll_outbound cx' lib' c' = None.
Proof.
  intros cx lib c r c' H.
  destruct c as [rxc cap of cf n].
  unfold poll_outbound, alloc_fut, get_or_insert, poll_fut in H; simpl in H.
  assert (Hf : exists f, outbound_fut c' = Some f /\ fut_done f = true).
  { destruct of as [[id [|]]|]; simpl in H; [discriminate| |];
      destruct (snd (outbound_body lib)); inversion H; subst; simpl; eauto. }
  split; [exact Hf|].
  intros cx' lib'. destruct Hf as [f [Hs Hd]].
  destruct c' as [rxc' cap' of' cf' n']; simpl in Hs; subst of'.
  unfold poll_outbound, alloc_fut, get_or_insert, poll_fut; simpl.
  rewrite Hd. reflexivity.
Qed.

Lemma poll_outbound_keeps_completed_future_witness :
  exists r c',
    poll_outbound 0 (Ready (MkOutboundLib (Ok 1) (Ok 2))) new = Some (Ready r, c') /\
    (exists f, outbound_fut c' = Some f /\ fut_done f = true) /\
    poll_outbound 1 (Ready (MkOutboundLib (Ok 1) (Ok 2))) c' = None.
Proof.
  do 2 eexists. split; [vm_compute; reflexivity|].
  split.
  - apply (proj1 (poll_outbound_keeps_completed_future 0 (MkOutboundLib (Ok 1) (Ok 2)) new _ _ eq_refl)).
  - apply (proj2 (poll_outbound_keeps_completed_future 0 (MkOutboundLib (Ok 1) (Ok 2)) new _ _ eq_refl)).
Defined.

(** C3 (code): once the close future has completed, with [Ok] or with
    [Err], [poll_close] leaves it in [close_fut]; the next [poll_close]
    polls the completed future again (which panics): it neither returns
    [Ready(Ok(()))] again nor starts a new close attempt. *)
Theorem poll_close_keeps_completed_future :
  forall cx lib c r c',
    poll_close cx (Ready lib) c = Some (Ready r, c') ->
    (exists f, close_fut c' = Some f /\ fut_done f = true) /\
    forall cx' lib', poll_close cx' lib' c' = None.
Proof.
  intros cx lib c r c' H.
  destruct c as [rxc cap of cf n].
  unfold poll_close, alloc_fut, get_or_insert, poll_fut in H; simpl in H.
  assert (Hf : exists f, close_fut c' = Some f /\ fut_done f = true).
  { destruct cf as [[id [|]]|]; simpl in H; [discriminate| |];
      destruct (close_body lib); inversion H; subst; simpl; eauto. }
  split; [exact Hf|].
  intros cx' lib'. destruct Hf as [f [Hs Hd]].
  destruct c' as [rxc' cap' of' cf' n']; simpl in Hs; subst cf'.
  unfold poll_close, alloc_fut, get_or_insert, poll_fut; simpl.
  rewrite Hd. reflexivity.
Qed.

Lemma poll_close_keeps_completed_future_witness :
  (exists c', poll_close 0 (Ready (Ok tt)) new = Some (Ready (Ok tt), c') /\
              poll_close 1 (Ready (Ok tt)) c' = None) /\
  (exists c', poll_close 0 (Ready (Err 5)) new = Some (Ready (Err (WebRTC 5)), c') /\
              poll_close 1 (Ready (Ok tt)) c' = None).
Proof.
  split; eexists; (split; [vm_compute; reflexivity|]).
  - apply (proj2 (poll_close_keeps_completed_future 0 (Ok tt) new _ _ eq_refl)).
  - apply (proj2 (poll_close_keeps_completed_future 0 (Err 5) new _ _ eq_refl)).
Defined.


(** C7 (code): while the inbound queue is open, the handler's [try_send]
    never fails, whatever the number of undrained channels: each channel is
    sent through a fresh clone of the sender, and each sender has a slot of
    its own.  Eleven (or more) channels opened before any [poll_inbound] are
    all queued, none is closed, and all are later delivered. *)
Theorem incoming_channel_always_queued :
  (forall d c,
      Mpsc.is_open (rx c) = true ->
      exists c', incoming_data_channel handler_tx (Ok d) c = (Queued, c') /\
                 Mpsc.queue (rx c') = Mpsc.queue (rx c) ++ [d]) /\
  run (map (fun i => OpIncoming (Ok i)) (seq 0 11) ++ repeat (OpPollInbound 0) 11) new
    = repeat (ObsIncoming Queued) 11 ++
      map (fun i => ObsInbound (Ready (Ok (new_substream None i)))) (seq 0 11).
Proof.
  split.
  - intros d c Ho.
    destruct c as [[buf q op task] cap of cf n]; unfold rx in Ho; simpl in Ho; subst op.
    eexists; split; reflexivity.
  - vm_compute; reflexivity.
Qed.

Lemma incoming_channel_always_queued_witness :
  exists c', incoming_data_channel handler_tx (Ok 3) new = (Queued, c') /\
             Mpsc.queue (rx c') = Mpsc.queue (rx new) ++ [3].
Proof.
  apply (proj1 incoming_channel_always_queued 3 new); reflexivity.
Defined.

(** C10: when the close future resolves with an error, [poll_close]
    returns [Ready(Err(WebRTC(e)))] and leaves the inbound queue (and the
    read-buffer hint) as they were: [poll_inbound] and the incoming-channel
    handler behave exactly as before the attempt. *)
Theorem poll_close_err_keeps_inbound :
  forall cx e c,
    (close_fut c = None \/ exists f, close_fut c = Some f /\ fut_done f = false) ->
    exists c',
      poll_close cx (Ready (Err e)) c = Some (Ready (Err (WebRTC e)), c') /\
      rx c' = rx c /\ read_buf_cap c' = read_buf_cap c /\
      (forall cx', fst (poll_inbound cx' c') = fst (poll_inbound cx' c)) /\
      (forall d, fst (incoming_data_channel handler_tx d c')
                 = fst (incoming_data_channel handler_tx d c)).
Proof.
  intros cx e c Hf.
  assert (H : exists c',
             poll_close cx (Ready (Err e)) c = Some (Ready (Err (WebRTC e)), c') /\
             rx c' = rx c /\ read_buf_cap c' = read_buf_cap c).
  { destruct c as [rxc cap of cf n]; simpl in Hf.
    unfold poll_close, alloc_fut, get_or_insert, poll_fut; simpl.
    destruct Hf as [-> | [[id done] [-> Hd]]]; simpl in *; [|subst done];
      eexists; repeat split; reflexivity. }
  destruct H as [c' [Hp [Hrx Hcap]]].
  exists c'. repeat split; try assumption.
  - intros cx'. unfold poll_inbound. unfold rx in Hrx. rewrite Hrx.
    destruct (Mpsc.poll_next cx' (incoming_data_channels_rx c)) as [[|[d|]] ch].
    + reflexivity.
    + simpl. rewrite Hcap. reflexivity.
    + reflexivity.
  - intros d. unfold incoming_data_channel. unfold rx in Hrx. rewrite Hrx.
    destruct d as [d|e']; [|reflexivity].
    destruct (Mpsc.try_send _ d _) as [[[] ?] ?]; reflexivity.
Qed.

Lemma poll_close_err_keeps_inbound_witness :
  exists c',
    poll_close 0 (Ready (Err 9)) new = Some (Ready (Err (WebRTC 9)), c') /\
    rx c' = rx new /\ read_buf_cap c' = read_buf_cap new /\
    (forall cx', fst (poll_inbound cx' c') = fst (poll_inbound cx' new)) /\
    (forall d, fst (incoming_data_channel handler_tx d c')
               = fst (incoming_data_channel handler_tx d new)).
Proof.
  apply (poll_close_err_keeps_inbound 0 9 new). left; reflexivity.
Defined.

(** C9 (counterexample): a failure of the peer-connection library is not
    always returned as [Error::WebRTC(e)]: when [detach] fails in the open
    handler, the outbound open returns [InternalError]. *)
Lemma outbound_detach_failure_not_webrtc :
  snd (outbound_body (MkOutboundLib (Ok 1) (Err 7)))
    = Err (InternalError "oneshot canceled"%string) /\
  snd (outbound_body (MkOutboundLib (Ok 1) (Err 7))) <> Err (WebRTC 7).
Proof.
  split; [reflexivity | discriminate].
Qed.

(** C9 (amended): the outbound-open future acquires the peer-connection
    lock, creates a data channel labelled "data" with default options,
    releases the lock, registers the open handler and awaits the one-shot,
    in this order.  A failure of [create_data_channel] is returned as
    [WebRTC(e)] (the lock being released on return); the one-shot sender
    being dropped before signalling, which is what a failed [detach] in the
    open handler leads to, is returned as [InternalError]; [poll_outbound]
    returns that error as it is. *)
Theorem outbound_body_steps_and_errors :
  forall lib,
    (forall e, create_result lib = Err e ->
       outbound_body lib
         = ([AcquirePeerConnLock; CreateDataChannel "data"%string None;
             ReleasePeerConnLock], Err (WebRTC e))) /\
    (forall dc, create_result lib = Ok dc ->
       fst (outbound_body lib)
         = [AcquirePeerConnLock; CreateDataChannel "data"%string None;
            ReleasePeerConnLock; RegisterOpenHandler dc; AwaitOneshot] /\
       (forall d, detach_result lib = Ok d -> snd (outbound_body lib) = Ok d) /\
       (forall e, detach_result lib = Err e ->
          snd (outbound_body lib) = Err (InternalError (canceled_to_string MkCanceled)))) /\
    (forall cx c err,
       outbound_fut c = None -> snd (outbound_body lib) = Err err ->
       exists c', poll_outbound cx (Ready lib) c = Some (Ready (Err err), c')).
Proof.
  intros [cr dr]; simpl. split; [|split].
  - intros e ->. reflexivity.
  - intros dc ->. split; [destruct dr; reflexivity|].
    split; intros ? ->; reflexivity.
  - intros cx c err Hs He.
    destruct c as [rxc cap of cf n]; simpl in Hs; subst of.
    unfold poll_outbound, alloc_fut, get_or_insert, poll_fut; simpl.
    rewrite He. eexists; reflexivity.
Qed.

Lemma outbound_body_steps_and_errors_witness :
  outbound_body (MkOutboundLib (Err 4) (Ok 2))
    = ([AcquirePeerConnLock; CreateDataChannel "data"%string None;
        ReleasePeerConnLock], Err (WebRTC 4)) /\
  snd (outbound_body (MkOutboundLib (Ok 1) (Err 7)))
    = Err (InternalError (canceled_to_string MkCanceled)) /\
  (exists c', poll_outbound 0 (Ready (MkOutboundLib (Err 4) (Ok 2))) new
                = Some (Ready (Err (WebRTC 4)), c')).
Proof.
  split; [|split].
  - apply (proj1 (outbound_body_steps_and_errors (MkOutboundLib (Err 4) (Ok 2))) 4).
    reflexivity.
  - apply (proj2 (proj2 (proj1 (proj2 (outbound_body_steps_and_errors
             (MkOutboundLib (Ok 1) (Err 7)))) 1 eq_refl)) 7).
    reflexivity.
  - apply (proj2 (proj2 (outbound_body_steps_and_errors (MkOutboundLib (Err 4) (Ok 2))))).
    + reflexivity.
    + reflexivity.
Defined.


(** Once the inbound queue is closed, every operation keeps it closed, no
    channel is queued, and only [poll_inbound] changes the queue: by
    draining its head, or, on an empty queue, by returning [InternalError]. *)
Lemma closed_step (op : Op) (c c' : Connection) (o : Obs) :
  Mpsc.is_open (rx c) = false ->
  step op c = Some (o, c') ->
  Mpsc.is_open (rx c') = false /\
  o <> ObsIncoming Queued /\
  match o with
  | ObsInbound r =>
      (Mpsc.queue (rx c) = [] /\ r = Ready (Err (InternalError rx_closed_msg)) /\
       Mpsc.queue (rx c') = []) \/
      (exists d, Mpsc.queue (rx c) = d :: Mpsc.queue (rx c'))
  | _ => Mpsc.queue (rx c') = Mpsc.queue (rx c)
  end.
Proof.
  intros Hc Hs.
  destruct c as [[buf q op0 task] cap of cf n]; unfold rx in Hc; simpl in Hc; subst op0.
  destruct op as [cx | cx lib | cx lib | d | k]; simpl in Hs.
  - (* poll_inbound *)
    unfold poll_inbound, Mpsc.poll_next in Hs; simpl in Hs.
    destruct q as [|d rest]; simpl in Hs; inversion Hs; subst; clear Hs; simpl.
    + split; [reflexivity|]. split; [discriminate|]. left; repeat split.
    + split; [reflexivity|]. split; [discriminate|]. right; eexists; reflexivity.
  - (* poll_outbound *)
    unfold poll_outbound, alloc_fut, get_or_insert, poll_fut in Hs; simpl in Hs.
    destruct (fut_done _); [discriminate|].
    destruct lib as [|l]; [|destruct (snd (outbound_body l))];
      inversion Hs; subst; simpl; (split; [reflexivity|]); (split; [discriminate|reflexivity]).
  - (* poll_close *)
    unfold poll_close, alloc_fut, get_or_insert, poll_fut in Hs; simpl in Hs.
    destruct (fut_done _); [discriminate|].
    destruct lib as [|l]; [|destruct (close_body l)];
      inversion Hs; subst; simpl; (split; [reflexivity|]); (split; [discriminate|reflexivity]).
  - (* the incoming-channel handler *)
    unfold incoming_data_channel, Mpsc.try_send in Hs; simpl in Hs.
    destruct d; inversion Hs; subst; simpl;
      (split; [reflexivity|]); (split; [discriminate|reflexivity]).
  - inversion Hs; subst; simpl; (split; [reflexivity|]); (split; [discriminate|reflexivity]).
Qed.

Lemma closed_run (ops : list Op) :
  forall c,
    Mpsc.is_open (rx c) = false ->
    (forall o, In o (run ops c) -> o <> ObsIncoming Queued) /\
    (forall i r, List.length (Mpsc.queue (rx c)) <= i ->
       nth_error (inbound_results (run ops c)) i = Some r ->
       r = Ready (Err (InternalError rx_closed_msg))).
Proof.
  induction ops as [|op rest IH]; intros c Hc.
  - split; [intros o [] | intros i r _ Hn; destruct i; discriminate].
  - simpl. destruct (step op c) as [[o c']|] eqn:Hs.
    2: { split; [intros o [] | intros i r _ Hn; destruct i; discriminate]. }
    destruct (closed_step op c c' o Hc Hs) as [Hc' [Hq Hm]].
    destruct (IH c' Hc') as [IH1 IH2].
    split.
    + intros o' [<- | Hin]; [exact Hq | exact (IH1 o' Hin)].
    + intros i r Hi Hn.
      destruct o as [r0 | r0 | r0 | o0 | ]; simpl in Hn;
        try (apply (IH2 i r); [rewrite Hm; exact Hi | exact Hn]).
      destruct Hm as [[Hq0 [Hr0 Hq1]] | [d Hd]].
      * destruct i as [|i]; simpl in Hn.
        -- inversion Hn; subst; reflexivity.
        -- apply (IH2 i r); [rewrite Hq1; simpl; lia | exact Hn].
      * rewrite Hd in Hi; simpl in Hi.
        destruct i as [|i]; [lia|]. simpl in Hn.
        apply (IH2 i r); [lia | exact Hn].
Qed.

(** C4: after [poll_close] has resolved with [Ok(())], in every run that
    follows (any interleaving of the adapter's operations), no incoming
    channel is queued any more, and once as many [poll_inbound] calls have
    been made as there were channels buffered at that point, every further
    [poll_inbound] call returns [Ready(Err(InternalError))]. *)
Theorem poll_inbound_fails_after_close :
  forall cx lib c c',
    poll_close cx lib c = Some (Ready (Ok tt), c') ->
    Mpsc.is_open (rx c') = false /\
    forall ops,
      (forall o, In o (run ops c') -> o <> ObsIncoming Queued) /\
      (forall i r, List.length (Mpsc.queue (rx c')) <= i ->
         nth_error (inbound_results (run ops c')) i = Some r ->
         r = Ready (Err (InternalError rx_closed_msg))).
Proof.
  intros cx lib c c' H.
  assert (Hc : Mpsc.is_open (rx c') = false).
  { destruct c as [rxc cap of cf n].
    unfold poll_close, alloc_fut, get_or_insert, poll_fut in H; simpl in H.
    destruct (fut_done _); [discriminate|].
    destruct lib as [|l]; [discriminate|].
    destruct (close_body l); inversion H; subst; reflexivity. }
  split; [exact Hc|].
  intros ops. apply closed_run, Hc.
Qed.

Lemma poll_inbound_fails_after_close_witness :
  exists c',
    poll_close 0 (Ready (Ok tt)) (snd (incoming_data_channel handler_tx (Ok 5) new))
      = Some (Ready (Ok tt), c') /\
    Mpsc.is_open (rx c') = false /\
    (exists r, nth_error (inbound_results (run [OpIncoming (Ok 6); OpPollInbound 1;
                 OpPollInbound 1; OpIncoming (Ok 7); OpPollInbound 1] c')) 2 = Some r /\
               r = Ready (Err (InternalError rx_closed_msg))) /\
    inbound_results (run [OpIncoming (Ok 6); OpPollInbound 1; OpPollInbound 1;
                          OpIncoming (Ok 7); OpPollInbound 1] c')
      = [Ready (Ok (new_substream None 5));
         Ready (Err (InternalError rx_closed_msg));
         Ready (Err (InternalError rx_closed_msg))].
Proof.
  eexists. split; [vm_compute; reflexivity|].
  split; [|split].
  - refine (proj1 (poll_inbound_fails_after_close 0 (Ready (Ok tt))
              (snd (incoming_data_channel handler_tx (Ok 5) new)) _ _)).
    vm_compute; reflexivity.
  - eexists. split; [vm_compute; reflexivity|].
    refine (proj2 (proj2 (poll_inbound_fails_after_close 0 (Ready (Ok tt))
              (snd (incoming_data_channel handler_tx (Ok 5) new)) _ _)
              [OpIncoming (Ok 6); OpPollInbound 1; OpPollInbound 1;
               OpIncoming (Ok 7); OpPollInbound 1]) 2 _ _ _).
    + vm_compute; reflexivity.
    + vm_compute; lia.
    + vm_compute; reflexivity.
  - vm_compute; reflexivity.
Defined.

End WebRTCFacts.

(* ================================================================== *)
(** * Further properties of the adapter and of the protocol identifier *)

Module WebRTCExtras.
Import WebRTC.

(** The effect of one operation on the inbound queue, in any state. *)
Lemma queue_step (op : Op) (c c' : Connection) (o : Obs) :
  step op c = Some (o, c') ->
  match o with
  | ObsInbound (Ready (Ok ch)) => Mpsc.queue (rx c) = pdc_channel ch :: Mpsc.queue (rx c')
  | ObsIncoming Queued =>
      exists d, op = OpIncoming (Ok d) /\ Mpsc.queue (rx c') = Mpsc.queue (rx c) ++ [d]
  | _ => Mpsc.queue (rx c') = Mpsc.queue (rx c)
  end.
Proof.
  intros Hs.
  destruct c as [[buf q op0 task] cap of cf n]; unfold rx; simpl.
  destruct op as [cx | cx lib | cx lib | d | k]; simpl in Hs.
  - unfold poll_inbound, Mpsc.poll_next in Hs; simpl in Hs.
    destruct q as [|d rest]; simpl in Hs.
    + destruct op0; inversion Hs; subst; reflexivity.
    + inversion Hs; subst; simpl. destruct cap; reflexivity.
  - unfold poll_outbound, alloc_fut, get_or_insert, poll_fut in Hs; simpl in Hs.
    destruct (fut_done _); [discriminate|].
    destruct lib as [|l]; [|destruct (snd (outbound_body l))];
      inversion Hs; subst; reflexivity.
  - unfold poll_close, alloc_fut, get_or_insert, poll_fut in Hs; simpl in Hs.
    destruct (fut_done _); [discriminate|].
    destruct lib as [|l]; [|destruct (close_body l)];
      inversion Hs; subst; reflexivity.
  - unfold incoming_data_channel, Mpsc.try_send in Hs; simpl in Hs.
    destruct d as [d|e]; [destruct op0|]; inversion Hs; subst; simpl; eauto.
  - inversion Hs; subst; reflexivity.
Qed.

Lemma enqueued_other (op : Op) (o : Obs) ops obs :
  (forall d, op = OpIncoming (Ok d) -> o <> ObsIncoming Queued) ->
  enqueued (op :: ops) (o :: obs) = enqueued ops obs.
Proof.
  intros H. destruct op as [| | |[d|e]|]; try reflexivity.
  destruct o as [| | |[]|]; try reflexivity.
  exfalso; apply (H d eq_refl); reflexivity.
Qed.

(** X1: in every run, whatever the interleaving, the channels handed out
    by [poll_inbound] are a prefix of the channels that were buffered at
    the start followed by those the handler queued during the run, in that
    order: no channel is lost, duplicated or reordered. *)
Theorem delivered_prefix_of_queued :
  forall ops c, exists rest,
    delivered (run ops c) ++ rest = Mpsc.queue (rx c) ++ enqueued ops (run ops c).
Proof.
  induction ops as [|op ops IH]; intros c.
  - exists (Mpsc.queue (rx c)). simpl. rewrite app_nil_r. reflexivity.
  - cbn [run]. destruct (step op c) as [[o c']|] eqn:Hs.
    2: { exists (Mpsc.queue (rx c)). simpl.
         destruct op as [| | |[]|]; simpl; rewrite ?app_nil_r; reflexivity. }
    pose proof (queue_step op c c' o Hs) as Hq.
    destruct (IH c') as [r' IH'].
    exists r'.
    destruct o as [[|[ch|e]] | r0 | r0 | [] | ].
    + rewrite enqueued_other by discriminate. simpl. rewrite <- Hq. exact IH'.
    + rewrite enqueued_other by discriminate. simpl. rewrite Hq. simpl. f_equal. exact IH'.
    + rewrite enqueued_other by discriminate. simpl. rewrite <- Hq. exact IH'.
    + rewrite enqueued_other by discriminate. simpl. rewrite <- Hq. exact IH'.
    + rewrite enqueued_other by discriminate. simpl. rewrite <- Hq. exact IH'.
    + destruct Hq as [d [-> Hq']]. simpl.
      rewrite IH', Hq', <- app_assoc. reflexivity.
    + rewrite enqueued_other by discriminate. simpl. rewrite <- Hq. exact IH'.
    + rewrite enqueued_other by discriminate. simpl. rewrite <- Hq. exact IH'.
    + rewrite enqueued_other by discriminate. simpl. rewrite <- Hq. exact IH'.
Qed.



(** [poll_inbound] calls drain a buffered queue in order. *)
Lemma run_polls (cx : Waker) (q : list DetachedDataChannel) :
  forall c, Mpsc.queue (rx c) = q ->
    run (repeat (OpPollInbound cx) (List.length q)) c
      = map (fun d => ObsInbound (Ready (Ok (new_substream (read_buf_cap c) d)))) q /\
    exists c', Mpsc.queue (rx c') = [] /\ Mpsc.is_open (rx c') = Mpsc.is_open (rx c) /\
      read_buf_cap c' = read_buf_cap c /\
      forall ops, run (repeat (OpPollInbound cx) (List.length q) ++ ops) c
                  = map (fun d => ObsInbound (Ready (Ok (new_substream (read_buf_cap c) d)))) q
                    ++ run ops c'.
Proof.
  induction q as [|d q IH]; intros c Hq.
  - split; [reflexivity|]. exists c. repeat split; try assumption; intros; reflexivity.
  - destruct c as [[buf q0 op task] cap of cf n]; unfold rx in Hq; simpl in Hq; subst q0.
    destruct (IH (MkConnection (Mpsc.MkChannel buf q op task) cap of cf n) eq_refl)
      as [IH1 [c' [H1 [H2 [H3 H4]]]]].
    split.
    + simpl. f_equal. exact IH1.
    + exists c'. repeat split; try assumption.
      intros ops. simpl. f_equal. apply H4.
Qed.

(** The handler queues each opened channel while the queue is open. *)
Lemma run_incomings (ds : list DetachedDataChannel) :
  forall c ops, Mpsc.is_open (rx c) = true ->
    exists c', Mpsc.queue (rx c') = Mpsc.queue (rx c) ++ ds /\
      Mpsc.is_open (rx c') = true /\ read_buf_cap c' = read_buf_cap c /\
      run (map (fun d => OpIncoming (Ok d)) ds ++ ops) c
        = repeat (ObsIncoming Queued) (List.length ds) ++ run ops c'.
Proof.
  induction ds as [|d ds IH]; intros c ops Ho.
  - exists c. rewrite app_nil_r. repeat split; assumption || reflexivity.
  - destruct c as [[buf q op task] cap of cf n]; unfold rx in Ho; simpl in Ho; subst op.
    destruct (IH (MkConnection (Mpsc.MkChannel buf (q ++ [d]) true None) cap of cf n) ops eq_refl)
      as [c' [H1 [H2 [H3 H4]]]].
    exists c'. unfold rx in *; simpl in *. rewrite H1, <- app_assoc.
    repeat split; try assumption. f_equal. exact H4.
Qed.

(** X3: on an open connection, channels opened by the remote before any
    [poll_inbound] are all queued, and as many [poll_inbound] calls as
    channels then hand out the previously buffered channels followed by
    the new ones, in order, each with the connection's read-buffer hint. *)
Theorem fifo_delivery :
  forall ds c cx,
    Mpsc.is_open (rx c) = true ->
    run (map (fun d => OpIncoming (Ok d)) ds ++
         repeat (OpPollInbound cx) (List.length (Mpsc.queue (rx c) ++ ds))) c
      = repeat (ObsIncoming Queued) (List.length ds) ++
        map (fun d => ObsInbound (Ready (Ok (new_substream (read_buf_cap c) d))))
            (Mpsc.queue (rx c) ++ ds).
Proof.
  intros ds c cx Ho.
  destruct (run_incomings ds c (repeat (OpPollInbound cx)
                                   (List.length (Mpsc.queue (rx c) ++ ds))) Ho)
    as [c' [H1 [H2 [H3 H4]]]].
  rewrite H4. f_equal. rewrite <- H1, <- H3.
  apply (proj1 (run_polls cx (Mpsc.queue (rx c')) c' eq_refl)).
Qed.

Lemma fifo_delivery_witness :
  run (map (fun d => OpIncoming (Ok d)) [7; 8; 9] ++
       repeat (OpPollInbound 0) (List.length (Mpsc.queue (rx new) ++ [7; 8; 9]))) new
    = repeat (ObsIncoming Queued) 3 ++
      map (fun d => ObsInbound (Ready (Ok (new_substream None d)))) [7; 8; 9].
Proof.
  apply (fifo_delivery [7; 8; 9] new 0). reflexivity.
Defined.

(** X4: a [poll_inbound] on an open, empty queue registers the caller's
    waker; the next channel the handler queues wakes it (the registered
    waker is taken) and the next [poll_inbound] returns that channel. *)
Theorem pending_then_woken :
  forall cx c d,
    Mpsc.is_open (rx c) = true -> Mpsc.queue (rx c) = [] ->
    exists c1 c2,
      poll_inbound cx c = (Pending, c1) /\
      Mpsc.recv_task (rx c1) = Some cx /\
      incoming_data_channel handler_tx (Ok d) c1 = (Queued, c2) /\
      Mpsc.recv_task (rx c2) = None /\
      fst (poll_inbound cx c2) = Ready (Ok (new_substream (read_buf_cap c) d)).
Proof.
  intros cx [[buf q op task] cap of cf n] d Ho Hq; unfold rx in *; simpl in *; subst.
  do 2 eexists. repeat split; reflexivity.
Qed.

Lemma pending_then_woken_witness :
  exists c1 c2,
    poll_inbound 4 new = (Pending, c1) /\
    Mpsc.recv_task (rx c1) = Some 4 /\
    incoming_data_channel handler_tx (Ok 11) c1 = (Queued, c2) /\
    Mpsc.recv_task (rx c2) = None /\
    fst (poll_inbound 4 c2) = Ready (Ok (new_substream (read_buf_cap new) 11)).
Proof.
  apply (pending_then_woken 4 new 11); reflexivity.
Defined.

(** X5: the incoming-channel handler queues a channel exactly when its
    [detach] succeeds and the queue is open; a channel detached after the
    queue was closed is closed by the adapter ([Disconnected]); a channel
    that is not queued leaves the connection unchanged. *)
Theorem incoming_queued_iff :
  forall d c,
    (fst (incoming_data_channel handler_tx d c) = Queued <->
       exists x, d = Ok x /\ Mpsc.is_open (rx c) = true) /\
    (fst (incoming_data_channel handler_tx d c) <> Queued ->
       snd (incoming_data_channel handler_tx d c) = c) /\
    (forall x, d = Ok x -> Mpsc.is_open (rx c) = false ->
       fst (incoming_data_channel handler_tx d c) = ClosedByAdapter Mpsc.Disconnected).
Proof.
  intros [x|e] [[buf q op task] cap of cf n]; unfold rx; simpl.
  - destruct op; simpl.
    + split; [split; [intros _; eauto | reflexivity]|].
      split; [intros H; contradiction H; reflexivity | intros ? _ H; discriminate].
    + split; [split; [intros H; discriminate | intros [y [_ H]]; discriminate]|].
      split; [reflexivity | reflexivity].
  - split; [split; [intros H; discriminate | intros [y [H _]]; discriminate]|].
    split; [reflexivity | intros ? H; discriminate].
Qed.

Lemma incoming_queued_iff_witness :
  fst (incoming_data_channel handler_tx (Ok 3)
         (set_rx (Mpsc.close (rx new)) new)) = ClosedByAdapter Mpsc.Disconnected /\
  snd (incoming_data_channel handler_tx (Ok 3) (set_rx (Mpsc.close (rx new)) new))
    = set_rx (Mpsc.close (rx new)) new.
Proof.
  split.
  - apply (proj2 (proj2 (incoming_queued_iff (Ok 3) (set_rx (Mpsc.close (rx new)) new))) 3);
      reflexivity.
  - apply (proj1 (proj2 (incoming_queued_iff (Ok 3) (set_rx (Mpsc.close (rx new)) new)))).
    vm_compute; discriminate.
Defined.

(** X6: a successful [poll_close] keeps the channels already buffered:
    the following [poll_inbound] calls hand them out in order, and only the
    next one returns [InternalError]. *)
Theorem close_keeps_buffered :
  forall cx lib c c' w,
    poll_close cx lib c = Some (Ready (Ok tt), c') ->
    Mpsc.queue (rx c') = Mpsc.queue (rx c) /\
    run (repeat (OpPollInbound w) (S (List.length (Mpsc.queue (rx c))))) c'
      = map (fun d => ObsInbound (Ready (Ok (new_substream (read_buf_cap c) d))))
            (Mpsc.queue (rx c)) ++
        [ObsInbound (Ready (Err (InternalError rx_closed_msg)))].
Proof.
  intros cx lib c c' w H.
  assert (Hc : Mpsc.queue (rx c') = Mpsc.queue (rx c) /\ Mpsc.is_open (rx c') = false /\
               read_buf_cap c' = read_buf_cap c).
  { destruct c as [rxc cap of cf n].
    unfold poll_close, alloc_fut, get_or_insert, poll_fut in H; simpl in H.
    destruct (fut_done _); [discriminate|].
    destruct lib as [|l]; [discriminate|].
    destruct (close_body l); inversion H; subst; repeat split; reflexivity. }
  destruct Hc as [Hq [Ho Hcap]].
  split; [exact Hq|].
  rewrite <- Hq, <- Hcap.
  replace (S (List.length (Mpsc.queue (rx c'))))
    with (List.length (Mpsc.queue (rx c')) + 1) by lia.
  rewrite repeat_app.
  destruct (run_polls w (Mpsc.queue (rx c')) c' eq_refl) as [_ [c'' [H1 [H2 [H3 H4]]]]].
  rewrite H4. f_equal.
  destruct c'' as [[buf q op task] cap of cf n]; unfold rx in *; simpl in *; subst.
  rewrite Ho. reflexivity.
Qed.

Lemma close_keeps_buffered_witness :
  Mpsc.queue (rx (MkConnection (Mpsc.MkChannel 10 [1; 2] false None) None None
                   (Some (MkFut 0 true)) 1))
    = Mpsc.queue (rx (snd (incoming_data_channel handler_tx (Ok 2)
                             (snd (incoming_data_channel handler_tx (Ok 1) new))))) /\
  run (repeat (OpPollInbound 0) 3)
      (MkConnection (Mpsc.MkChannel 10 [1; 2] false None) None None (Some (MkFut 0 true)) 1)
    = map (fun d => ObsInbound (Ready (Ok (new_substream None d)))) [1; 2] ++
      [ObsInbound (Ready (Err (InternalError rx_closed_msg)))].
Proof.
  apply (close_keeps_buffered 0 (Ready (Ok tt))
           (snd (incoming_data_channel handler_tx (Ok 2)
                   (snd (incoming_data_channel handler_tx (Ok 1) new)))) _ 0).
  vm_compute; reflexivity.
Defined.

(** X7: [poll_outbound] never touches the inbound queue, the read-buffer
    hint or the close slot; [poll_close] never touches the queued channels,
    the read-buffer hint or the outbound slot, and changes the inbound
    queue at all only when it returns [Ready(Ok(()))]. *)
Theorem operations_independent :
  (forall cx lib c r c',
      poll_outbound cx lib c = Some (r, c') ->
      rx c' = rx c /\ read_buf_cap c' = read_buf_cap c /\ close_fut c' = close_fut c) /\
  (forall cx lib c r c',
      poll_close cx lib c = Some (r, c') ->
      Mpsc.queue (rx c') = Mpsc.queue (rx c) /\ read_buf_cap c' = read_buf_cap c /\
      outbound_fut c' = outbound_fut c /\
      (r <> Ready (Ok tt) -> rx c' = rx c)).
Proof.
  split.
  - intros cx lib [rxc cap of cf n] r c' H.
    unfold poll_outbound, alloc_fut, get_or_insert, poll_fut in H; simpl in H.
    destruct (fut_done _); [discriminate|].
    destruct lib as [|l]; [|destruct (snd (outbound_body l))];
      inversion H; subst; repeat split; reflexivity.
  - intros cx lib [rxc cap of cf n] r c' H.
    unfold poll_close, alloc_fut, get_or_insert, poll_fut in H; simpl in H.
    destruct (fut_done _); [discriminate|].
    destruct lib as [|l]; [|destruct (close_body l) as [[]|e]];
      inversion H; subst; repeat split; try reflexivity;
      intros Hn; try reflexivity; contradiction Hn; reflexivity.
Qed.

Lemma operations_independent_witness :
  rx (snd (incoming_data_channel handler_tx (Ok 1) new))
    = rx (MkConnection (rx (snd (incoming_data_channel handler_tx (Ok 1) new)))
            None (Some (MkFut 0 false)) None 1) /\
  Mpsc.queue (rx (set_close_fut (Some (MkFut 0 true))
                   (set_rx (Mpsc.close (rx (snd (incoming_data_channel handler_tx (Ok 1) new))))
                      (snd (incoming_data_channel handler_tx (Ok 1) new)))))
    = Mpsc.queue (rx (snd (incoming_data_channel handler_tx (Ok 1) new))).
Proof.
  split.
  - apply (proj1 (proj1 operations_independent 0 Pending
                   (snd (incoming_data_channel handler_tx (Ok 1) new)) Pending _
                   (ltac:(vm_compute; reflexivity)))).
  - apply (proj1 (proj2 operations_independent 0 (Ready (Ok tt))
                   (snd (incoming_data_channel handler_tx (Ok 1) new)) (Ready (Ok tt)) _
                   (ltac:(vm_compute; reflexivity)))).
Defined.



End WebRTCExtras.

Module UpgradeExtras.
Import Upgrade.



(** X9: [to_protocols_iter] of a concatenated enumeration is the
    concatenation of the two results, protocols and diagnostics alike. *)
Theorem to_protocols_iter_app :
  forall a b,
    to_protocols_iter (a ++ b)
      = (fst (to_protocols_iter a) ++ fst (to_protocols_iter b),
         snd (to_protocols_iter a) ++ snd (to_protocols_iter b)).
Proof.
  induction a as [|n a IH]; intros b; simpl.
  - destruct (to_protocols_iter b); reflexivity.
  - rewrite IH. destruct (filter_non_utf8_protocols n) as [[q|] l1];
      destruct (to_protocols_iter a) as [pa la]; simpl;
      rewrite <- app_assoc; reflexivity.
Qed.

Lemma to_protocols_iter_fst (infos : list (list byte)) :
  fst (to_protocols_iter infos)
    = map (fun n => MkProtocol (MkMsProtocol (string_of_list_byte n)))
          (filter well_formed infos) /\
  snd (to_protocols_iter infos) = filter (fun n => negb (well_formed n)) infos.
Proof.
  induction infos as [|n rest [IH1 IH2]]; [split; reflexivity|].
  simpl. rewrite UpgradeFacts.filter_non_utf8_protocols_spec.
  destruct (to_protocols_iter rest) as [ps log]; simpl in *.
  destruct (well_formed n); simpl; rewrite ?IH1, ?IH2; split; reflexivity.
Qed.

(** X10: every protocol [to_protocols_iter] offers has a name that starts
    with '/' and is at most 140 bytes long, and enumerating the offered
    names again gives back the same protocols with no diagnostic. *)
Theorem to_protocols_iter_offered :
  forall infos,
    (forall p, In p (fst (to_protocols_iter infos)) ->
       (exists rest, as_str p = String "/"%char rest) /\
       String.length (as_str p) <= MAX_PROTOCOL_LEN) /\
    to_protocols_iter (map (fun p => list_byte_of_string (as_str p))
                           (fst (to_protocols_iter infos)))
      = (fst (to_protocols_iter infos), []).
Proof.
  intros infos. rewrite (proj1 (to_protocols_iter_fst infos)).
  assert (Hwf : forall n, well_formed n = true ->
            (exists rest, string_of_list_byte n = String "/"%char rest) /\
            String.length (string_of_list_byte n) <= MAX_PROTOCOL_LEN).
  { intros n Hn. unfold well_formed, ms_try_from_bytes, ms_try_from_owned in Hn.
    destruct (utf8_valid n); [|discriminate].
    destruct (starts_with_slash _) eqn:E1; [|discriminate].
    destruct (Nat.leb _ _) eqn:E2; [|discriminate].
    apply Nat.leb_le in E2. split; [|exact E2].
    destruct (string_of_list_byte n) as [|c r]; [discriminate|].
    unfold starts_with_slash in E1. apply Ascii.eqb_eq in E1. subst. eauto. }
  split.
  - intros p Hin. apply in_map_iff in Hin as [n [<- Hin]].
    apply filter_In in Hin as [_ Hn]. exact (Hwf n Hn).
  - induction infos as [|n rest IH]; [reflexivity|].
    simpl. destruct (well_formed n) eqn:Hn; [|exact IH].
    simpl. unfold as_str at 1; simpl.
    rewrite list_byte_of_string_of_list_byte.
    rewrite UpgradeFacts.filter_non_utf8_protocols_spec, Hn.
    rewrite IH. reflexivity.
Qed.

Lemma to_protocols_iter_offered_witness :
  ((exists rest, as_str (MkProtocol (MkMsProtocol "/ok"%string)) = String "/"%char rest) /\
   String.length (as_str (MkProtocol (MkMsProtocol "/ok"%string))) <= MAX_PROTOCOL_LEN) /\
  to_protocols_iter (map (fun p => list_byte_of_string (as_str p))
                         (fst (to_protocols_iter
                                 (map list_byte_of_string ["/ok"; "bad"]%string))))
    = (fst (to_protocols_iter (map list_byte_of_string ["/ok"; "bad"]%string)), []).
Proof.
  split.
  - apply (proj1 (to_protocols_iter_offered (map list_byte_of_string ["/ok"; "bad"]%string))).
    vm_compute. left; reflexivity.
  - apply (proj2 (to_protocols_iter_offered (map list_byte_of_string ["/ok"; "bad"]%string))).
Defined.

End UpgradeExtras.
